(** * Bernstein-Vazirani circuit builder (qiskit_tutorial/bernstein_bazarani.py)

    A shallow embedding of [bernstein_vazirani_circuit] and of the part of the
    circuit-construction interface it calls, followed by the properties of
    the circuits it returns.

    The Python function creates one [QuantumCircuit] object and mutates it
    through a sequence of method calls, each of which may raise a
    [CircuitError].  The embedding threads the circuit through a small
    state-and-error monad, so that "the builder returns a circuit" is a
    statement to be proved and not an assumption of the model.  A second,
    finer embedding keeps the circuits in a store of objects and runs the
    same statements on a reference, to settle what a call shares with
    the calls before it. *)

From Stdlib Require Import List Arith Lia Bool String Ascii Sorted.
Import ListNotations.

Local Open Scope string_scope.
Local Open Scope list_scope.
Local Open Scope nat_scope.

(** ** The circuit interface used by the builder *)

Module Qiskit.

(** The five kinds of operation the builder appends.  Lines and classical
    bits are plain indices. *)
Inductive Instruction : Type :=
| XGate (qubit : nat)
| HGate (qubit : nat)
| CXGate (control target : nat)
| Barrier (qubits : list nat)
| Measure (qubit clbit : nat).

(** A circuit: declared sizes and the operations in the order in which
    they were appended. *)
Record QuantumCircuit : Type := mkCircuit {
  num_qubits : nat;
  num_clbits : nat;
  data : list Instruction
}.

Inductive CircuitError : Type :=
| IndexOutOfRange (index : nat)
| DuplicateQubits (qubit : nat)
| EmptyArguments
| RegisterSizeError.

(** Computations that mutate the circuit under construction or raise. *)
Definition M (A : Type) : Type :=
  QuantumCircuit -> CircuitError + (A * QuantumCircuit).

Definition ret {A} (a : A) : M A := fun c => inr (a, c).

Definition bind {A B} (m : M A) (k : A -> M B) : M B :=
  fun c => match m c with
           | inl e => inl e
           | inr (a, c') => k a c'
           end.

Definition raise {A} (e : CircuitError) : M A := fun _ => inl e.

Definition get : M QuantumCircuit := fun c => inr (c, c).

Declare Scope circ_scope.
Delimit Scope circ_scope with circ.
Notation "x <- m ;; k" := (bind m (fun x => k))
  (at level 61, m at next level, right associativity) : circ_scope.
Notation "m ;; k" := (bind m (fun _ => k))
  (at level 61, right associativity) : circ_scope.
Local Open Scope circ_scope.

(** [for x in xs: body(x)] *)
Fixpoint for_ {A} (xs : list A) (body : A -> M unit) : M unit :=
  match xs with
  | [] => ret tt
  | x :: xs' => body x ;; for_ xs' body
  end.

(** Python's [range(n)], [enumerate(xs)] and [reversed(s)] on a string. *)
Definition range (n : nat) : list nat := seq 0 n.

Fixpoint enumerate_from {A} (start : nat) (xs : list A) : list (nat * A) :=
  match xs with
  | [] => []
  | x :: xs' => (start, x) :: enumerate_from (S start) xs'
  end.

Definition enumerate {A} (xs : list A) : list (nat * A) :=
  enumerate_from 0 xs.

Definition reversed (s : string) : list ascii :=
  rev (list_ascii_of_string s).

(** [QuantumCircuit(num_qubits, num_clbits)]: an empty circuit. *)
Definition QuantumCircuit_init (nq nc : nat) : QuantumCircuit :=
  mkCircuit nq nc [].

(** Appending leaves the declared sizes alone. *)
Definition emit (c : QuantumCircuit) (ops : list Instruction)
  : QuantumCircuit :=
  mkCircuit (num_qubits c) (num_clbits c) (data c ++ ops).

Definition append (op : Instruction) : M unit :=
  fun c => inr (tt, emit c [op]).

(** Resolution of an integer line (classical bit) specifier: an index
    outside the declared range raises. *)
Definition qbit (q : nat) : M nat :=
  c <- get ;;
  if q <? num_qubits c then ret q else raise (IndexOutOfRange q).

Definition cbit (b : nat) : M nat :=
  c <- get ;;
  if b <? num_clbits c then ret b else raise (IndexOutOfRange b).

(** [circuit.x(q)] *)
Definition x (q : nat) : M unit :=
  q' <- qbit q ;; append (XGate q').

(** [circuit.h(qs)] with an iterable of lines: every specifier is
    resolved, then the gate is broadcast over the lines, one Hadamard per
    line, in order.  Broadcasting a gate over an argument that resolved
    to no line at all raises ("One or more of the arguments are
    empty"). *)
Definition h (qs : list nat) : M unit :=
  for_ qs (fun q => _ <- qbit q ;; ret tt) ;;
  match qs with
  | [] => raise EmptyArguments
  | _ :: _ => for_ qs (fun q => append (HGate q))
  end.

(** [circuit.cx(control, target)]: a two-line gate refuses to act twice
    on one line. *)
Definition cx (control target : nat) : M unit :=
  c' <- qbit control ;;
  t' <- qbit target ;;
  if c' =? t' then raise (DuplicateQubits c')
  else append (CXGate c' t').

(** [circuit.barrier()] without arguments spans every declared line and
    is one operation. *)
Definition barrier : M unit :=
  c <- get ;; append (Barrier (range (num_qubits c))).

(** [circuit.measure(qs, cs)]: equally long lists are paired up
    index by index; a single line may be read into several classical
    bits; any other shape raises. *)
Definition measure (qs cs : list nat) : M unit :=
  for_ qs (fun q => _ <- qbit q ;; ret tt) ;;
  for_ cs (fun b => _ <- cbit b ;; ret tt) ;;
  if List.length cs =? List.length qs then
    for_ (combine qs cs) (fun qc => append (Measure (fst qc) (snd qc)))
  else
    match qs, cs with
    | [q], _ :: _ => for_ cs (fun b => append (Measure q b))
    | _, _ => raise RegisterSizeError
    end.

(** Run a construction on a circuit and hand the circuit back. *)
Definition exec (m : M unit) (c : QuantumCircuit)
  : CircuitError + QuantumCircuit :=
  match m c with
  | inl e => inl e
  | inr (_, c') => inr c'
  end.

End Qiskit.

Import Qiskit.
Local Open Scope circ_scope.

(** ** The builder *)

(** The body of the oracle loop, for the pair [(i, bit)] produced by
    [enumerate(reversed(secret_str))]. *)
Definition oracle_step (n : nat) (use_ancilla use_paired_qubits : bool)
  (ib : nat * ascii) : M unit :=
  let '(i, bit) := ib in
  if Ascii.eqb bit "1" then
    if use_ancilla then cx i n
    else if use_paired_qubits then cx i (n + i)
    else x i
  else ret tt.

Definition bernstein_vazirani_circuit (secret_str : string)
  (use_ancilla use_paired_qubits : bool) : CircuitError + QuantumCircuit :=
  let n := String.length secret_str in
  let num_qubits :=
    if use_ancilla then n + 1
    else if use_paired_qubits then 2 * n
    else n in
  let circuit := QuantumCircuit_init num_qubits n in
  exec
    ((if use_ancilla then
        x n ;;
        h (range (n + 1))
      else
        h (range n)) ;;
     barrier ;;
     for_ (enumerate (reversed secret_str))
          (oracle_step n use_ancilla use_paired_qubits) ;;
     barrier ;;
     h (range n) ;;
     measure (range n) (range n))
    circuit.

(** ** Vocabulary of the specification *)

(** A secret is valid when it consists of the characters '0' and '1'. *)
Definition is_binary (s : string) : bool :=
  forallb (fun ch => Ascii.eqb ch "0" || Ascii.eqb ch "1")
          (list_ascii_of_string s).

(** The inputs the builder is specified for: non-empty binary strings. *)
Definition valid_secret (s : string) : Prop :=
  s <> "" /\ is_binary s = true.

(** Number of '1' characters of the secret. *)
Fixpoint popcount (s : string) : nat :=
  match s with
  | EmptyString => 0
  | String ch s' => (if Ascii.eqb ch "1" then 1 else 0) + popcount s'
  end.

(** Bit [i] of the secret read right to left: the character at index
    [n - 1 - i] counted from the left. *)
Definition secret_bit (s : string) (i : nat) : option ascii :=
  String.get (String.length s - 1 - i) s.

Definition bit_is_one (s : string) (i : nat) : bool :=
  match secret_bit s i with
  | Some ch => Ascii.eqb ch "1"
  | None => false
  end.

(** The positions in [0 .. n-1], ascending, whose bit is '1'. *)
Definition one_positions (s : string) : list nat :=
  filter (bit_is_one s) (range (String.length s)).

(** The secret with every character other than '1' replaced by '0'. *)
Fixpoint zero_fill (s : string) : string :=
  match s with
  | EmptyString => EmptyString
  | String ch s' =>
      String (if Ascii.eqb ch "1" then "1"%char else "0"%char) (zero_fill s')
  end.

(** Projections of an operation list by kind. *)
Definition cx_pairs (ops : list Instruction) : list (nat * nat) :=
  flat_map (fun op => match op with
                      | CXGate c t => [(c, t)]
                      | _ => []
                      end) ops.

Definition x_lines (ops : list Instruction) : list nat :=
  flat_map (fun op => match op with
                      | XGate q => [q]
                      | _ => []
                      end) ops.

Definition measurements (ops : list Instruction) : list (nat * nat) :=
  flat_map (fun op => match op with
                      | Measure q b => [(q, b)]
                      | _ => []
                      end) ops.

(** Number of lines declared in each mode. *)
Definition lines_of_mode (use_ancilla use_paired_qubits : bool) (n : nat)
  : nat :=
  if use_ancilla then n + 1
  else if use_paired_qubits then 2 * n
  else n.

(** The segments of the operation list, written out. *)
Definition init_ops (use_ancilla : bool) (n : nat) : list Instruction :=
  if use_ancilla then XGate n :: map HGate (range (n + 1))
  else map HGate (range n).

Definition oracle_gate (n : nat) (use_ancilla use_paired_qubits : bool)
  (i : nat) : Instruction :=
  if use_ancilla then CXGate i n
  else if use_paired_qubits then CXGate i (n + i)
  else XGate i.

Definition oracle_ops (s : string) (use_ancilla use_paired_qubits : bool)
  : list Instruction :=
  map (oracle_gate (String.length s) use_ancilla use_paired_qubits)
      (one_positions s).

Definition basis_change_ops (n : nat) : list Instruction :=
  map HGate (range n).

Definition measure_ops (n : nat) : list Instruction :=
  map (fun i => Measure i i) (range n).

(** What a single round of the oracle loop appends. *)
Definition oracle_emitted (n : nat) (use_ancilla use_paired_qubits : bool)
  (ib : nat * ascii) : list Instruction :=
  if Ascii.eqb (snd ib) "1"
  then [oracle_gate n use_ancilla use_paired_qubits (fst ib)]
  else [].

(** The circuit the builder is expected to return, segment by segment:
    initialization, barrier, oracle, barrier, basis change, measurement. *)
Definition described_circuit (s : string)
  (use_ancilla use_paired_qubits : bool) : QuantumCircuit :=
  let n := String.length s in
  let nq := lines_of_mode use_ancilla use_paired_qubits n in
  mkCircuit nq n
    (init_ops use_ancilla n
     ++ [Barrier (range nq)]
     ++ oracle_ops s use_ancilla use_paired_qubits
     ++ [Barrier (range nq)]
     ++ basis_change_ops n
     ++ measure_ops n).

(** An operation fits a circuit of [nq] lines and [nc] classical bits
    when every index it names is declared and a controlled flip acts on
    two different lines. *)
Definition op_in_range (nq nc : nat) (op : Instruction) : bool :=
  match op with
  | XGate q => q <? nq
  | HGate q => q <? nq
  | CXGate c t => (c <? nq) && (t <? nq) && negb (c =? t)
  | Barrier qs => forallb (fun q => q <? nq) qs
  | Measure q b => (q <? nq) && (b <? nc)
  end.

Definition well_formed (c : QuantumCircuit) : bool :=
  forallb (op_in_range (num_qubits c) (num_clbits c)) (data c).

(** ** The circuit as a mutable object

    Each call of the Python function allocates one [QuantumCircuit]
    object, mutates it through its methods and returns the reference.
    Here the objects allocated so far form an explicit store, so that
    what a call reads and what it changes are things to be proved. *)

Module Objects.

(** A reference is the position of its object in the store. *)
Definition ref : Type := nat.
Definition store : Type := list QuantumCircuit.

(** A call returns, raises, or follows a reference to no object (which
    Python rules out; it is shown below never to happen). *)
Inductive outcome (A : Type) : Type :=
| Returned (a : A)
| Raised (e : CircuitError)
| Dangling.

Arguments Returned {A} a.
Arguments Raised {A} e.
Arguments Dangling {A}.

(** Computations on the store; what was written before a raise stays
    written. *)
Definition SM (A : Type) : Type := store -> outcome A * store.

Definition ret {A} (a : A) : SM A := fun st => (Returned a, st).

Definition bind {A B} (m : SM A) (k : A -> SM B) : SM B :=
  fun st => match m st with
            | (Returned a, st') => k a st'
            | (Raised e, st') => (Raised e, st')
            | (Dangling, st') => (Dangling, st')
            end.

Declare Scope obj_scope.
Delimit Scope obj_scope with obj.
Notation "x <- m ;; k" := (bind m (fun x => k))
  (at level 61, m at next level, right associativity) : obj_scope.
Notation "m ;; k" := (bind m (fun _ => k))
  (at level 61, right associativity) : obj_scope.
Local Open Scope obj_scope.

Fixpoint for_ {A} (xs : list A) (body : A -> SM unit) : SM unit :=
  match xs with
  | [] => ret tt
  | x :: xs' => body x ;; for_ xs' body
  end.

(** Construction of a new object: it is put at a fresh position. *)
Definition new (c : QuantumCircuit) : SM ref :=
  fun st => (Returned (List.length st), st ++ [c]).

(** Overwrite the object at a reference. *)
Fixpoint write (r : ref) (c : QuantumCircuit) (st : store) : store :=
  match st, r with
  | [], _ => []
  | _ :: st', 0 => c :: st'
  | c0 :: st', S r' => c0 :: write r' c st'
  end.

(** A method call [obj.m(...)]: the method runs on the object the
    reference points to and its effect is written back; when the method
    raises, the object is left as it was. *)
Definition method (r : ref) (m : M unit) : SM unit :=
  fun st => match nth_error st r with
            | None => (Dangling, st)
            | Some c => match m c with
                        | inl e => (Raised e, st)
                        | inr (_, c') => (Returned tt, write r c' st)
                        end
            end.

(** The body of the oracle loop on the object [circuit]. *)
Definition oracle_step (circuit : ref) (n : nat)
  (use_ancilla use_paired_qubits : bool) (ib : nat * ascii) : SM unit :=
  let '(i, bit) := ib in
  if Ascii.eqb bit "1" then
    if use_ancilla then method circuit (cx i n)
    else if use_paired_qubits then method circuit (cx i (n + i))
    else method circuit (x i)
  else ret tt.

(** The builder, statement by statement, on the store. *)
Definition bernstein_vazirani_circuit (secret_str : string)
  (use_ancilla use_paired_qubits : bool) : SM ref :=
  let n := String.length secret_str in
  let num_qubits :=
    if use_ancilla then n + 1
    else if use_paired_qubits then 2 * n
    else n in
  circuit <- new (QuantumCircuit_init num_qubits n) ;;
  (if use_ancilla then
     method circuit (x n) ;;
     method circuit (h (range (n + 1)))
   else
     method circuit (h (range n))) ;;
  method circuit barrier ;;
  for_ (enumerate (reversed secret_str))
       (oracle_step circuit n use_ancilla use_paired_qubits) ;;
  method circuit barrier ;;
  method circuit (h (range n)) ;;
  method circuit (measure (range n) (range n)) ;;
  ret circuit.

(** What the caller holds after a call: the error raised, or the
    contents of the object returned. *)
Definition result_of (run : outcome ref * store)
  : option (CircuitError + QuantumCircuit) :=
  match run with
  | (Returned r, st) => option_map inr (nth_error st r)
  | (Raised e, _) => Some (inl e)
  | (Dangling, _) => None
  end.

End Objects.

(** ** Facts about the circuit interface *)

Module QiskitFacts.

Lemma bind_inr {A B} (m : M A) (k : A -> M B) c a c' :
  m c = inr (a, c') -> bind m k c = k a c'.
Proof. unfold bind. intros ->. reflexivity. Qed.

Lemma bind_inl {A B} (m : M A) (k : A -> M B) c e :
  m c = inl e -> bind m k c = inl e.
Proof. unfold bind. intros ->. reflexivity. Qed.

Lemma emit_nil c : emit c [] = c.
Proof. destruct c. unfold emit. simpl. now rewrite app_nil_r. Qed.

Lemma emit_emit c l1 l2 : emit (emit c l1) l2 = emit c (l1 ++ l2).
Proof. unfold emit. simpl. now rewrite app_assoc. Qed.

Lemma num_qubits_emit c l : num_qubits (emit c l) = num_qubits c.
Proof. reflexivity. Qed.

Lemma num_clbits_emit c l : num_clbits (emit c l) = num_clbits c.
Proof. reflexivity. Qed.

Lemma qbit_ok q c : q < num_qubits c -> qbit q c = inr (q, c).
Proof.
  intros Hq. unfold qbit, bind, get.
  apply Nat.ltb_lt in Hq. now rewrite Hq.
Qed.

Lemma cbit_ok b c : b < num_clbits c -> cbit b c = inr (b, c).
Proof.
  intros Hb. unfold cbit, bind, get.
  apply Nat.ltb_lt in Hb. now rewrite Hb.
Qed.

(** Resolving a list of valid specifiers changes nothing. *)
Lemma resolve_qubits_ok qs c :
  Forall (fun q => q < num_qubits c) qs ->
  for_ qs (fun q => _ <- qbit q ;; ret tt) c = inr (tt, c).
Proof.
  induction 1 as [|q qs Hq _ IH]; simpl; [reflexivity|].
  rewrite (bind_inr _ _ c tt c); [exact IH|].
  now rewrite (bind_inr _ _ c q c) by now apply qbit_ok.
Qed.

Lemma resolve_clbits_ok cs c :
  Forall (fun b => b < num_clbits c) cs ->
  for_ cs (fun b => _ <- cbit b ;; ret tt) c = inr (tt, c).
Proof.
  induction 1 as [|b cs Hb _ IH]; simpl; [reflexivity|].
  rewrite (bind_inr _ _ c tt c); [exact IH|].
  now rewrite (bind_inr _ _ c b c) by now apply cbit_ok.
Qed.

(** A loop whose body only appends, appends the image of the list. *)
Lemma for_append {A} (f : A -> Instruction) xs c :
  for_ xs (fun a => append (f a)) c = inr (tt, emit c (map f xs)).
Proof.
  revert c. induction xs as [|a xs IH]; intros c; simpl.
  - unfold ret. now rewrite emit_nil.
  - rewrite (bind_inr _ _ c tt (emit c [f a])) by reflexivity.
    rewrite IH, emit_emit. reflexivity.
Qed.

Lemma range_lt n m : n <= m -> Forall (fun q => q < m) (range n).
Proof.
  intros Hn. apply Forall_forall. intros q Hq.
  apply in_seq in Hq. lia.
Qed.

Lemma x_ok q c :
  q < num_qubits c -> x q c = inr (tt, emit c [XGate q]).
Proof.
  intros Hq. unfold x.
  now rewrite (bind_inr _ _ c q c) by now apply qbit_ok.
Qed.

Lemma h_ok qs c :
  qs <> [] -> Forall (fun q => q < num_qubits c) qs ->
  h qs c = inr (tt, emit c (map HGate qs)).
Proof.
  intros Hne Hqs. unfold h.
  rewrite (bind_inr _ _ c tt c) by now apply resolve_qubits_ok.
  destruct qs as [|q qs]; [congruence|].
  apply for_append.
Qed.

Lemma h_nil c : h [] c = inl EmptyArguments.
Proof. reflexivity. Qed.

Lemma cx_ok i t c :
  i < num_qubits c -> t < num_qubits c -> i <> t ->
  cx i t c = inr (tt, emit c [CXGate i t]).
Proof.
  intros Hi Ht Hne. unfold cx.
  rewrite (bind_inr _ _ c i c) by now apply qbit_ok.
  rewrite (bind_inr _ _ c t c) by now apply qbit_ok.
  apply Nat.eqb_neq in Hne. now rewrite Hne.
Qed.

Lemma barrier_ok c :
  barrier c = inr (tt, emit c [Barrier (range (num_qubits c))]).
Proof. reflexivity. Qed.

Lemma combine_diag {A} (l : list A) :
  combine l l = map (fun a => (a, a)) l.
Proof. induction l; simpl; congruence. Qed.

Lemma measure_diag_ok n c :
  n <= num_qubits c -> n <= num_clbits c ->
  measure (range n) (range n) c
  = inr (tt, emit c (map (fun i => Measure i i) (range n))).
Proof.
  intros Hq Hb. unfold measure.
  rewrite (bind_inr _ _ c tt c)
    by now apply resolve_qubits_ok, range_lt.
  rewrite (bind_inr _ _ c tt c)
    by now apply resolve_clbits_ok, range_lt.
  rewrite Nat.eqb_refl, for_append, combine_diag, map_map.
  reflexivity.
Qed.

End QiskitFacts.

(** ** The oracle loop *)

Section OracleLoop.

Import QiskitFacts.

Variable n : nat.
Variables use_ancilla use_paired_qubits : bool.

(** One round on a position inside the secret, on a circuit with the
    lines the mode declares: every index handed to the interface is in
    range and the two lines of a controlled flip differ. *)
Lemma oracle_step_ok i bit c :
  i < n ->
  num_qubits c = lines_of_mode use_ancilla use_paired_qubits n ->
  oracle_step n use_ancilla use_paired_qubits (i, bit) c
  = inr (tt, emit c (oracle_emitted n use_ancilla use_paired_qubits
                                    (i, bit))).
Proof.
  intros Hi Hc. unfold oracle_step, oracle_emitted, oracle_gate.
  cbn [fst snd]. unfold lines_of_mode in Hc.
  destruct (Ascii.eqb bit "1").
  - destruct use_ancilla; [|destruct use_paired_qubits].
    + apply cx_ok; lia.
    + apply cx_ok; lia.
    + apply x_ok; lia.
  - unfold ret. now rewrite emit_nil.
Qed.

Lemma oracle_loop_ok bits : forall start c,
  start + List.length bits <= n ->
  num_qubits c = lines_of_mode use_ancilla use_paired_qubits n ->
  for_ (enumerate_from start bits)
       (oracle_step n use_ancilla use_paired_qubits) c
  = inr (tt, emit c (flat_map
                       (oracle_emitted n use_ancilla use_paired_qubits)
                       (enumerate_from start bits))).
Proof.
  induction bits as [|bit bits IH]; intros start c Hlen Hc.
  - cbn. unfold ret. now rewrite emit_nil.
  - cbn [enumerate_from for_ flat_map]. cbn [List.length] in Hlen.
    rewrite (bind_inr _ _ c tt _ (oracle_step_ok start bit c
                                    ltac:(lia) Hc)).
    rewrite IH by (rewrite ?num_qubits_emit; trivial; lia).
    now rewrite emit_emit.
Qed.

End OracleLoop.

(** ** Reading the secret right to left *)

Section SecretBits.

Lemma enumerate_from_app {A} (l1 l2 : list A) : forall start,
  enumerate_from start (l1 ++ l2)
  = enumerate_from start l1
    ++ enumerate_from (start + List.length l1) l2.
Proof.
  induction l1 as [|a l1 IH]; intros start; cbn.
  - now rewrite Nat.add_0_r.
  - rewrite IH. do 3 f_equal. lia.
Qed.

Lemma length_reversed s : List.length (reversed s) = String.length s.
Proof.
  unfold reversed. rewrite length_rev.
  induction s; cbn; congruence.
Qed.

Lemma reversed_String ch s : reversed (String ch s) = reversed s ++ [ch].
Proof. reflexivity. Qed.

(** Prefixing a character leaves the lower bits alone and becomes the
    top bit. *)
Lemma secret_bit_String_low ch s i :
  i < String.length s ->
  secret_bit (String ch s) i = secret_bit s i.
Proof.
  intros Hi. unfold secret_bit. cbn [String.length].
  replace (S (String.length s) - 1 - i)
    with (S (String.length s - 1 - i)) by lia.
  reflexivity.
Qed.

Lemma secret_bit_String_top ch s :
  secret_bit (String ch s) (String.length s) = Some ch.
Proof.
  unfold secret_bit. cbn [String.length].
  replace (S (String.length s) - 1 - String.length s) with 0 by lia.
  reflexivity.
Qed.

Lemma one_positions_String ch s :
  one_positions (String ch s)
  = one_positions s
    ++ (if Ascii.eqb ch "1" then [String.length s] else []).
Proof.
  unfold one_positions, range. cbn [String.length].
  rewrite seq_S, filter_app. cbn [filter Nat.add].
  f_equal.
  - apply filter_ext_in. intros i Hi. apply in_seq in Hi.
    unfold bit_is_one. now rewrite secret_bit_String_low by lia.
  - unfold bit_is_one. rewrite secret_bit_String_top.
    now destruct (Ascii.eqb ch "1").
Qed.

(** The loop visits the positions in ascending order and appends a gate
    exactly at those whose bit is '1'. *)
Lemma oracle_emitted_positions N a p s :
  flat_map (oracle_emitted N a p) (enumerate (reversed s))
  = map (oracle_gate N a p) (one_positions s).
Proof.
  unfold enumerate. induction s as [|ch s IH].
  - reflexivity.
  - rewrite reversed_String, enumerate_from_app, flat_map_app, IH.
    rewrite one_positions_String, map_app, length_reversed.
    f_equal. cbn. unfold oracle_emitted. cbn [fst snd].
    now destruct (Ascii.eqb ch "1").
Qed.

Lemma length_one_positions s :
  List.length (one_positions s) = popcount s.
Proof.
  induction s as [|ch s IH]; [reflexivity|].
  rewrite one_positions_String, length_app, IH. cbn [popcount].
  destruct (Ascii.eqb ch "1"); cbn; lia.
Qed.

Lemma in_one_positions s i :
  In i (one_positions s)
  <-> i < String.length s /\ secret_bit s i = Some "1"%char.
Proof.
  unfold one_positions, range. rewrite filter_In, in_seq.
  unfold bit_is_one. split.
  - intros [Hi Hb]. split; [lia|].
    destruct (secret_bit s i) as [ch|]; [|discriminate].
    apply Ascii.eqb_eq in Hb. now subst.
  - intros [Hi ->]. split; [lia|reflexivity].
Qed.

Lemma one_positions_NoDup s : NoDup (one_positions s).
Proof. apply NoDup_filter, seq_NoDup. Qed.

Lemma StronglySorted_filter {A} (R : A -> A -> Prop) f l :
  StronglySorted R l -> StronglySorted R (filter f l).
Proof.
  induction 1 as [|a l _ IH Ha]; cbn; [constructor|].
  destruct (f a); [|exact IH].
  constructor; [exact IH|].
  rewrite Forall_forall in *. intros b Hb.
  apply filter_In in Hb. now apply Ha.
Qed.

Lemma StronglySorted_seq len : forall start,
  StronglySorted lt (seq start len).
Proof.
  induction len as [|len IH]; intros start; cbn; constructor.
  - apply IH.
  - apply Forall_forall. intros j Hj. apply in_seq in Hj. lia.
Qed.

Lemma one_positions_ascending s : StronglySorted lt (one_positions s).
Proof. apply StronglySorted_filter, StronglySorted_seq. Qed.

Lemma one_positions_zero_fill s :
  one_positions (zero_fill s) = one_positions s.
Proof.
  assert (Hlen : forall t, String.length (zero_fill t) = String.length t)
    by (induction t; cbn; congruence).
  induction s as [|ch s IH]; [reflexivity|].
  cbn [zero_fill]. rewrite !one_positions_String, IH, Hlen.
  now destruct (Ascii.eqb ch "1").
Qed.

End SecretBits.

(** ** The builder, end to end *)

Section Builder.

Import QiskitFacts.

Lemma range_nonempty n : 0 < n -> range n <> [].
Proof. destruct n; [lia|discriminate]. Qed.

Lemma init_ok a p n c :
  0 < n ->
  num_qubits c = lines_of_mode a p n ->
  (if a then x n ;; h (range (n + 1)) else h (range n)) c
  = inr (tt, emit c (init_ops a n)).
Proof.
  intros Hn Hc. unfold lines_of_mode in Hc. unfold init_ops.
  destruct a.
  - rewrite (bind_inr _ _ c tt _ (x_ok n c ltac:(lia))).
    rewrite h_ok.
    + now rewrite emit_emit.
    + apply range_nonempty. lia.
    + apply range_lt. rewrite num_qubits_emit. lia.
  - apply h_ok; [now apply range_nonempty|].
    apply range_lt. destruct p; lia.
Qed.

Lemma lines_of_mode_ge a p n : n <= lines_of_mode a p n.
Proof. unfold lines_of_mode. destruct a, p; lia. Qed.

Lemma string_length_pos s : s <> "" -> 0 < String.length s.
Proof. destruct s; [congruence|cbn; lia]. Qed.

(** On a non-empty secret no call raises, and the circuit returned is
    the described one. *)
Lemma bernstein_vazirani_circuit_described s a p :
  s <> "" ->
  bernstein_vazirani_circuit s a p = inr (described_circuit s a p).
Proof.
  intros Hs. apply string_length_pos in Hs.
  unfold bernstein_vazirani_circuit, described_circuit, exec.
  fold (lines_of_mode a p (String.length s)).
  set (n := String.length s) in *.
  set (nq := lines_of_mode a p n).
  set (c0 := QuantumCircuit_init nq n).
  erewrite bind_inr by (apply (init_ok a p n); [exact Hs|reflexivity]).
  erewrite bind_inr by apply barrier_ok.
  erewrite bind_inr
    by (apply oracle_loop_ok;
        [rewrite length_reversed; apply Nat.le_refl|reflexivity]).
  fold (enumerate (reversed s)). rewrite oracle_emitted_positions.
  erewrite bind_inr by apply barrier_ok.
  erewrite bind_inr
    by (apply h_ok;
        [now apply range_nonempty
        |apply range_lt, (lines_of_mode_ge a p n)]).
  rewrite measure_diag_ok
    by first [apply (lines_of_mode_ge a p n)|apply Nat.le_refl].
  rewrite !emit_emit. unfold emit, c0. cbn [num_qubits num_clbits data].
  unfold oracle_ops, basis_change_ops, measure_ops. fold n. fold nq.
  reflexivity.
Qed.

(** On the empty secret the Hadamard over [range(0)] raises, in every
    mode. *)
Lemma bernstein_vazirani_circuit_empty a p :
  bernstein_vazirani_circuit "" a p = inl EmptyArguments.
Proof. destruct a, p; reflexivity. Qed.

(** Projections of the described operation list. *)
Local Ltac by_list_induction l :=
  unfold cx_pairs, x_lines, measurements;
  induction l as [|? ? IH]; cbn; [trivial|try rewrite IH; trivial].

Lemma cx_pairs_app l1 l2 : cx_pairs (l1 ++ l2) = cx_pairs l1 ++ cx_pairs l2.
Proof. apply flat_map_app. Qed.

Lemma x_lines_app l1 l2 : x_lines (l1 ++ l2) = x_lines l1 ++ x_lines l2.
Proof. apply flat_map_app. Qed.

Lemma measurements_app l1 l2 :
  measurements (l1 ++ l2) = measurements l1 ++ measurements l2.
Proof. apply flat_map_app. Qed.

Lemma cx_pairs_map_HGate l : cx_pairs (map HGate l) = [].
Proof. by_list_induction l. Qed.

Lemma x_lines_map_HGate l : x_lines (map HGate l) = [].
Proof. by_list_induction l. Qed.

Lemma measurements_map_HGate l : measurements (map HGate l) = [].
Proof. by_list_induction l. Qed.

Lemma cx_pairs_measure_ops n : cx_pairs (measure_ops n) = [].
Proof. unfold measure_ops. by_list_induction (range n). Qed.

Lemma x_lines_measure_ops n : x_lines (measure_ops n) = [].
Proof. unfold measure_ops. by_list_induction (range n). Qed.

Lemma measurements_measure_ops n :
  measurements (measure_ops n) = map (fun i => (i, i)) (range n).
Proof.
  unfold measure_ops. by_list_induction (range n).
Qed.

Lemma cx_pairs_init_ops a n : cx_pairs (init_ops a n) = [].
Proof.
  unfold init_ops. destruct a; cbn; apply cx_pairs_map_HGate.
Qed.

Lemma measurements_init_ops a n : measurements (init_ops a n) = [].
Proof.
  unfold init_ops. destruct a; cbn; apply measurements_map_HGate.
Qed.

Lemma cx_pairs_oracle_ops s a p :
  cx_pairs (oracle_ops s a p)
  = if a then map (fun i => (i, String.length s)) (one_positions s)
    else if p
         then map (fun i => (i, String.length s + i)) (one_positions s)
         else [].
Proof.
  unfold oracle_ops, oracle_gate.
  destruct a; [|destruct p]; by_list_induction (one_positions s).
Qed.

Lemma x_lines_oracle_ops s a p :
  x_lines (oracle_ops s a p)
  = if a then [] else if p then [] else one_positions s.
Proof.
  unfold oracle_ops, oracle_gate.
  destruct a; [|destruct p]; by_list_induction (one_positions s).
Qed.

Lemma measurements_oracle_ops s a p :
  measurements (oracle_ops s a p) = [].
Proof.
  unfold oracle_ops, oracle_gate.
  destruct a; [|destruct p]; by_list_induction (one_positions s).
Qed.

Lemma cx_pairs_described s a p :
  cx_pairs (data (described_circuit s a p))
  = cx_pairs (oracle_ops s a p).
Proof.
  unfold described_circuit. cbn [data].
  rewrite !cx_pairs_app, cx_pairs_init_ops.
  unfold basis_change_ops.
  rewrite cx_pairs_map_HGate, cx_pairs_measure_ops.
  cbn. now rewrite app_nil_r.
Qed.

Lemma measurements_described s a p :
  measurements (data (described_circuit s a p))
  = map (fun i => (i, i)) (range (String.length s)).
Proof.
  unfold described_circuit. cbn [data].
  rewrite !measurements_app, measurements_init_ops.
  unfold basis_change_ops.
  rewrite measurements_oracle_ops, measurements_map_HGate,
    measurements_measure_ops.
  reflexivity.
Qed.

End Builder.

(** ** Properties of the returned circuit *)

Import QiskitFacts.

Local Ltac returns_described s a p Hs :=
  exists (described_circuit s a p);
  split; [apply bernstein_vazirani_circuit_described, Hs|].

(** C1. Ancilla mode: the controlled flips of the circuit are exactly one
    per position whose right-to-left bit is '1', in ascending order of the
    control line and all onto the ancilla line [n]; there are
    [popcount s] of them; a line controls a flip exactly when its bit is
    '1'; the oracle segment between the two barriers holds nothing else;
    and a secret whose bits are all '0' yields no controlled flip. *)
Theorem ancilla_controlled_flips (s : string) :
  valid_secret s ->
  exists c,
    bernstein_vazirani_circuit s true false = inr c /\
    let n := String.length s in
    cx_pairs (data c) = map (fun i => (i, n)) (one_positions s) /\
    List.length (cx_pairs (data c)) = popcount s /\
    (forall ctl tgt, In (ctl, tgt) (cx_pairs (data c)) -> tgt = n) /\
    (forall i, In i (map fst (cx_pairs (data c)))
               <-> i < n /\ secret_bit s i = Some "1"%char) /\
    NoDup (map fst (cx_pairs (data c))) /\
    data c = init_ops true n
             ++ [Barrier (range (n + 1))]
             ++ map (fun i => CXGate i n) (one_positions s)
             ++ [Barrier (range (n + 1))]
             ++ basis_change_ops n ++ measure_ops n /\
    ((forall i, i < n -> secret_bit s i = Some "0"%char) ->
     cx_pairs (data c) = []).
Proof.
  intros [Hs _]. returns_described s true false Hs.
  cbv zeta. rewrite cx_pairs_described, cx_pairs_oracle_ops.
  assert (Hfst : map fst (map (fun i => (i, String.length s))
                              (one_positions s)) = one_positions s).
  { rewrite map_map. cbn. apply map_id. }
  rewrite Hfst.
  split; [reflexivity|].
  split; [rewrite length_map; apply length_one_positions|].
  split.
  { intros ctl tgt Hin. apply in_map_iff in Hin.
    destruct Hin as (i & Heq & _). congruence. }
  split; [intros i; apply in_one_positions|].
  split; [apply one_positions_NoDup|].
  split; [reflexivity|].
  intros Hzero. destruct (one_positions s) as [|i l] eqn:E; [reflexivity|].
  assert (Hin : In i (one_positions s)) by (rewrite E; now left).
  apply in_one_positions in Hin. destruct Hin as [Hi Hone].
  rewrite (Hzero i Hi) in Hone. discriminate.
Qed.

Lemma ancilla_controlled_flips_witness :
  valid_secret "101" /\
  exists c,
    bernstein_vazirani_circuit "101" true false = inr c /\
    cx_pairs (data c) = [(0, 3); (2, 3)] /\
    List.length (cx_pairs (data c)) = popcount "101".
Proof.
  assert (H : valid_secret "101") by (split; [discriminate|reflexivity]).
  split; [exact H|].
  destruct (ancilla_controlled_flips "101" H) as (c & Hc & Hcx & Hlen & _).
  exists c. repeat split; assumption.
Defined.

(** C2. Declared sizes: the returned circuit has [n + 1] lines in ancilla
    mode, [2 * n] lines in paired mode without ancilla, [n] lines in plain
    mode, and [n] classical bits in every mode. *)
Theorem declared_sizes (s : string) (use_ancilla use_paired_qubits : bool) :
  valid_secret s ->
  exists c,
    bernstein_vazirani_circuit s use_ancilla use_paired_qubits = inr c /\
    let n := String.length s in
    num_clbits c = n /\
    (use_ancilla = true -> num_qubits c = n + 1) /\
    (use_ancilla = false -> use_paired_qubits = true ->
     num_qubits c = 2 * n) /\
    (use_ancilla = false -> use_paired_qubits = false ->
     num_qubits c = n).
Proof.
  intros [Hs _]. returns_described s use_ancilla use_paired_qubits Hs.
  cbn. unfold lines_of_mode.
  repeat split; intros; subst; reflexivity.
Qed.

Lemma declared_sizes_witness :
  valid_secret "101" /\
  exists c,
    bernstein_vazirani_circuit "101" true false = inr c /\
    num_qubits c = 4 /\ num_clbits c = 3.
Proof.
  assert (H : valid_secret "101") by (split; [discriminate|reflexivity]).
  split; [exact H|].
  destruct (declared_sizes "101" true false H) as (c & Hc & Hb & Hq & _).
  exists c. split; [exact Hc|]. split; [exact (Hq eq_refl)|exact Hb].
Defined.

(** C3. Mode precedence: with the ancilla flag set, the paired flag makes
    no difference to the result, which is a circuit. *)
Theorem ancilla_takes_precedence (s : string) :
  valid_secret s ->
  bernstein_vazirani_circuit s true true
  = bernstein_vazirani_circuit s true false /\
  exists c, bernstein_vazirani_circuit s true true = inr c.
Proof.
  intros [Hs _].
  rewrite !bernstein_vazirani_circuit_described by exact Hs.
  split; [reflexivity|]. eexists. reflexivity.
Qed.

Lemma ancilla_takes_precedence_witness :
  valid_secret "10110101" /\
  bernstein_vazirani_circuit "10110101" true true
  = bernstein_vazirani_circuit "10110101" true false.
Proof.
  assert (H : valid_secret "10110101")
    by (split; [discriminate|reflexivity]).
  split; [exact H|].
  exact (proj1 (ancilla_takes_precedence "10110101" H)).
Defined.

(** C4. Paired mode: the circuit has [2 * n] lines and [n] classical
    bits; its controlled flips are, in ascending order of the control
    line, one from line [i] onto line [n + i] for each position [i] whose
    right-to-left bit is '1'; no control line occurs twice, and a
    controlled flip from [i] onto [t] is present exactly when [i] is such
    a position and [t = n + i]. *)
Theorem paired_controlled_flips (s : string) :
  valid_secret s ->
  exists c,
    bernstein_vazirani_circuit s false true = inr c /\
    let n := String.length s in
    num_qubits c = 2 * n /\
    num_clbits c = n /\
    cx_pairs (data c) = map (fun i => (i, n + i)) (one_positions s) /\
    NoDup (map fst (cx_pairs (data c))) /\
    (forall i t, In (i, t) (cx_pairs (data c))
                 <-> i < n /\ secret_bit s i = Some "1"%char /\ t = n + i).
Proof.
  intros [Hs _]. returns_described s false true Hs.
  cbv zeta. rewrite cx_pairs_described, cx_pairs_oracle_ops.
  split; [reflexivity|]. split; [reflexivity|]. split; [reflexivity|].
  split.
  - rewrite map_map. cbn. rewrite map_id. apply one_positions_NoDup.
  - intros i t. rewrite in_map_iff. split.
    + intros (j & Heq & Hj). inversion Heq; subst.
      apply in_one_positions in Hj. tauto.
    + intros (Hi & Hone & ->). exists i. split; [reflexivity|].
      apply in_one_positions. tauto.
Qed.

Lemma paired_controlled_flips_witness :
  valid_secret "1" /\
  exists c,
    bernstein_vazirani_circuit "1" false true = inr c /\
    num_qubits c = 2 /\ num_clbits c = 1 /\
    cx_pairs (data c) = [(0, 1)].
Proof.
  assert (H : valid_secret "1") by (split; [discriminate|reflexivity]).
  split; [exact H|].
  destruct (paired_controlled_flips "1" H) as (c & Hc & Hq & Hb & Hcx & _).
  exists c. repeat split; assumption.
Defined.

(** C5. Construction order: the operation list is, in this order, the
    initialization (in ancilla mode a flip of the ancilla line [n]
    followed by a Hadamard on each of the lines [0 .. n]; otherwise a
    Hadamard on each of the lines [0 .. n-1]), a barrier over all lines,
    the oracle gates of the positions whose bit is '1' in ascending
    order of position, a second barrier, a Hadamard on each of the lines
    [0 .. n-1], and the measurements of the lines [0 .. n-1]. *)
Theorem construction_order (s : string)
  (use_ancilla use_paired_qubits : bool) :
  valid_secret s ->
  exists c,
    bernstein_vazirani_circuit s use_ancilla use_paired_qubits = inr c /\
    let n := String.length s in
    data c
    = (if use_ancilla then XGate n :: map HGate (range (n + 1))
       else map HGate (range n))
      ++ [Barrier (range (num_qubits c))]
      ++ map (oracle_gate n use_ancilla use_paired_qubits) (one_positions s)
      ++ [Barrier (range (num_qubits c))]
      ++ map HGate (range n)
      ++ map (fun i => Measure i i) (range n) /\
    StronglySorted lt (one_positions s) /\
    (forall i, In i (one_positions s)
               <-> i < n /\ secret_bit s i = Some "1"%char).
Proof.
  intros [Hs _]. returns_described s use_ancilla use_paired_qubits Hs.
  cbv zeta. split; [reflexivity|]. split.
  - apply one_positions_ascending.
  - intros i. apply in_one_positions.
Qed.

Lemma construction_order_witness :
  valid_secret "110" /\
  exists c,
    bernstein_vazirani_circuit "110" true false = inr c /\
    data c = [XGate 3; HGate 0; HGate 1; HGate 2; HGate 3;
              Barrier [0; 1; 2; 3];
              CXGate 1 3; CXGate 2 3;
              Barrier [0; 1; 2; 3];
              HGate 0; HGate 1; HGate 2;
              Measure 0 0; Measure 1 1; Measure 2 2].
Proof.
  assert (H : valid_secret "110") by (split; [discriminate|reflexivity]).
  split; [exact H|].
  destruct (construction_order "110" true false H) as (c & Hc & Hd & _).
  exists c. split; [exact Hc|].
  pose proof Hc as Hc'. vm_compute in Hc'. injection Hc' as <-. exact Hd.
Defined.

(** C6. Measurement wiring: the measurements of the circuit are exactly
    line [i] into classical bit [i] for [i = 0 .. n-1], in that order; no
    other line is measured. *)
Theorem measurement_wiring (s : string)
  (use_ancilla use_paired_qubits : bool) :
  valid_secret s ->
  exists c,
    bernstein_vazirani_circuit s use_ancilla use_paired_qubits = inr c /\
    let n := String.length s in
    measurements (data c) = map (fun i => (i, i)) (range n) /\
    (forall q b, In (q, b) (measurements (data c)) <-> q < n /\ b = q).
Proof.
  intros [Hs _]. returns_described s use_ancilla use_paired_qubits Hs.
  cbv zeta. rewrite measurements_described.
  split; [reflexivity|].
  intros q b. rewrite in_map_iff. unfold range. split.
  - intros (i & Heq & Hi). apply in_seq in Hi.
    inversion Heq; subst. lia.
  - intros [Hq ->]. exists q. split; [reflexivity|].
    apply in_seq. lia.
Qed.

Lemma measurement_wiring_witness :
  valid_secret "101" /\
  exists c,
    bernstein_vazirani_circuit "101" false true = inr c /\
    num_qubits c = 6 /\
    measurements (data c) = [(0, 0); (1, 1); (2, 2)].
Proof.
  assert (H : valid_secret "101") by (split; [discriminate|reflexivity]).
  split; [exact H|].
  destruct (measurement_wiring "101" false true H) as (c & Hc & Hm & _).
  exists c. split; [exact Hc|]. split; [|exact Hm].
  pose proof Hc as Hc'. vm_compute in Hc'. injection Hc' as <-.
  reflexivity.
Defined.

(** C7. Plain mode: every position whose right-to-left bit is '1' gets an
    unconditional flip on its own line, these are the only unconditional
    flips, and the circuit holds no controlled flip. *)
Theorem plain_unconditional_flips (s : string) :
  valid_secret s ->
  exists c,
    bernstein_vazirani_circuit s false false = inr c /\
    let n := String.length s in
    cx_pairs (data c) = [] /\
    x_lines (data c) = one_positions s /\
    (forall i, i < n -> secret_bit s i = Some "1"%char ->
               In (XGate i) (data c)).
Proof.
  intros [Hs _]. returns_described s false false Hs.
  cbv zeta. rewrite cx_pairs_described, cx_pairs_oracle_ops.
  split; [reflexivity|]. split.
  - unfold described_circuit, init_ops, basis_change_ops. cbn [data].
    rewrite !x_lines_app, x_lines_oracle_ops, !x_lines_map_HGate,
      x_lines_measure_ops.
    cbn. now rewrite app_nil_r.
  - intros i Hi Hone. unfold described_circuit. cbn [data].
    apply in_or_app. right. apply in_or_app. right.
    apply in_or_app. left. unfold oracle_ops.
    change (XGate i) with (oracle_gate (String.length s) false false i).
    apply in_map, in_one_positions. tauto.
Qed.

Lemma plain_unconditional_flips_witness :
  valid_secret "110" /\
  exists c,
    bernstein_vazirani_circuit "110" false false = inr c /\
    cx_pairs (data c) = [] /\
    x_lines (data c) = [1; 2].
Proof.
  assert (H : valid_secret "110") by (split; [discriminate|reflexivity]).
  split; [exact H|].
  destruct (plain_unconditional_flips "110" H) as (c & Hc & Hcx & Hx & _).
  exists c. repeat split; assumption.
Defined.

(** ** Calls on the object store *)

Section ObjectFacts.

Lemma nth_error_last (st : Objects.store) c :
  nth_error (st ++ [c]) (List.length st) = Some c.
Proof. rewrite nth_error_app2 by lia. now rewrite Nat.sub_diag. Qed.

Lemma nth_error_frame (st : Objects.store) c r c0 :
  nth_error st r = Some c0 -> nth_error (st ++ [c]) r = Some c0.
Proof.
  intros H. rewrite nth_error_app1; [exact H|].
  apply nth_error_Some. congruence.
Qed.

Lemma write_last st c c' :
  Objects.write (List.length st) c' (st ++ [c]) = st ++ [c'].
Proof. induction st as [|c0 st IH]; cbn; congruence. Qed.

Lemma obj_bind_returned {A B} (m : Objects.SM A) (k : A -> Objects.SM B)
  st a st' :
  m st = (Objects.Returned a, st') -> Objects.bind m k st = k a st'.
Proof. unfold Objects.bind. intros ->. reflexivity. Qed.

Lemma obj_bind_raised {A B} (m : Objects.SM A) (k : A -> Objects.SM B)
  st e st' :
  m st = (Objects.Raised e, st') ->
  Objects.bind m k st = (Objects.Raised e, st').
Proof. unfold Objects.bind. intros ->. reflexivity. Qed.

(** A method call on the object allocated last: the effect of the method
    lands on that object and on nothing else. *)
Lemma method_last_ok m st c c' :
  m c = inr (tt, c') ->
  Objects.method (List.length st) m (st ++ [c])
  = (Objects.Returned tt, st ++ [c']).
Proof.
  intros H. unfold Objects.method.
  now rewrite nth_error_last, H, write_last.
Qed.

Lemma method_last_raise m st c e :
  m c = inl e ->
  Objects.method (List.length st) m (st ++ [c])
  = (Objects.Raised e, st ++ [c]).
Proof.
  intros H. unfold Objects.method. now rewrite nth_error_last, H.
Qed.

Lemma oracle_step_on_object n a p ib st c :
  Objects.oracle_step (List.length st) n a p ib (st ++ [c])
  = Objects.method (List.length st) (oracle_step n a p ib) (st ++ [c]).
Proof.
  destruct ib as [i bit]. unfold Objects.oracle_step, oracle_step.
  destruct (Ascii.eqb bit "1").
  - destruct a; [|destruct p]; reflexivity.
  - symmetry. now apply method_last_ok.
Qed.

Lemma obj_oracle_loop_ok n a p bits : forall start st c,
  start + List.length bits <= n ->
  num_qubits c = lines_of_mode a p n ->
  Objects.for_ (enumerate_from start bits)
               (Objects.oracle_step (List.length st) n a p) (st ++ [c])
  = (Objects.Returned tt,
     st ++ [emit c (flat_map (oracle_emitted n a p)
                             (enumerate_from start bits))]).
Proof.
  induction bits as [|bit bits IH]; intros start st c Hlen Hc.
  - cbn. unfold Objects.ret. now rewrite emit_nil.
  - cbn [enumerate_from Objects.for_ flat_map]. cbn [List.length] in Hlen.
    erewrite obj_bind_returned
      by (rewrite oracle_step_on_object; apply method_last_ok;
          apply oracle_step_ok; [lia|exact Hc]).
    rewrite IH by (rewrite ?num_qubits_emit; trivial; lia).
    now rewrite emit_emit.
Qed.

(** On a non-empty secret a call allocates one object, at the end of the
    store, fills it with the described circuit and returns it. *)
Lemma call_described s a p st :
  s <> "" ->
  Objects.bernstein_vazirani_circuit s a p st
  = (Objects.Returned (List.length st), st ++ [described_circuit s a p]).
Proof.
  intros Hs. apply string_length_pos in Hs.
  unfold Objects.bernstein_vazirani_circuit, described_circuit.
  fold (lines_of_mode a p (String.length s)).
  set (n := String.length s) in *.
  set (nq := lines_of_mode a p n).
  set (c0 := QuantumCircuit_init nq n).
  erewrite obj_bind_returned by reflexivity.
  assert (Hinit :
    (if a
     then Objects.bind (Objects.method (List.length st) (x n))
            (fun _ => Objects.method (List.length st) (h (range (n + 1))))
     else Objects.method (List.length st) (h (range n))) (st ++ [c0])
    = (Objects.Returned tt, st ++ [emit c0 (init_ops a n)])).
  { unfold init_ops. destruct a.
    - assert (Hq : forall l, num_qubits (emit c0 l) = n + 1)
        by reflexivity.
      erewrite obj_bind_returned
        by (apply method_last_ok, x_ok; change (n < n + 1); lia).
      rewrite (method_last_ok _ _ _ _
                 (h_ok (range (n + 1)) _
                    ltac:(apply range_nonempty; lia)
                    ltac:(apply range_lt; rewrite Hq; lia))).
      now rewrite emit_emit.
    - apply method_last_ok, h_ok; [now apply range_nonempty|].
      apply range_lt, (lines_of_mode_ge false p n). }
  rewrite (obj_bind_returned _ _ _ _ _ Hinit).
  erewrite obj_bind_returned by apply method_last_ok, barrier_ok.
  erewrite obj_bind_returned
    by (apply obj_oracle_loop_ok;
        [rewrite length_reversed; apply Nat.le_refl|reflexivity]).
  fold (enumerate (reversed s)). rewrite oracle_emitted_positions.
  erewrite obj_bind_returned by apply method_last_ok, barrier_ok.
  erewrite obj_bind_returned
    by (apply method_last_ok, h_ok;
        [now apply range_nonempty
        |apply range_lt, (lines_of_mode_ge a p n)]).
  erewrite obj_bind_returned
    by (apply method_last_ok, measure_diag_ok;
        first [apply (lines_of_mode_ge a p n)|apply Nat.le_refl]).
  unfold Objects.ret. rewrite !emit_emit.
  unfold emit, c0. cbn [num_qubits num_clbits data].
  unfold oracle_ops, basis_change_ops, measure_ops. fold n. fold nq.
  reflexivity.
Qed.

(** On the empty secret a call raises and leaves its unfinished object
    behind, as one more entry of the store. *)
Lemma call_empty a p st :
  exists c,
    Objects.bernstein_vazirani_circuit "" a p st
    = (Objects.Raised EmptyArguments, st ++ [c]).
Proof.
  unfold Objects.bernstein_vazirani_circuit. cbn [String.length].
  erewrite obj_bind_returned by reflexivity.
  destruct a.
  - eexists.
    erewrite obj_bind_returned.
    2:{ erewrite obj_bind_returned by (apply method_last_ok; reflexivity).
        apply method_last_ok. reflexivity. }
    erewrite obj_bind_returned by (apply method_last_ok; reflexivity).
    cbn [reversed list_ascii_of_string rev enumerate enumerate_from
         Objects.for_].
    erewrite obj_bind_returned by reflexivity.
    erewrite obj_bind_returned by (apply method_last_ok; reflexivity).
    erewrite obj_bind_raised by (apply method_last_raise; reflexivity).
    reflexivity.
  - eexists.
    erewrite obj_bind_raised.
    2:{ destruct p; apply method_last_raise; reflexivity. }
    reflexivity.
Qed.

End ObjectFacts.

(** C8. Determinism: what a call hands to its caller -- the error raised
    or the contents of the circuit returned -- is the same on every
    store of objects, and is the value of the builder as a function of
    the secret and the two flags.  A call reads and changes no object
    that existed before it and returns a reference that did not exist
    before; so two calls one after the other, with the same inputs,
    return two different objects with the same contents, and the second
    call leaves the result of the first alone. *)
Theorem calls_share_no_state (s : string)
  (use_ancilla use_paired_qubits : bool) (st1 st2 : Objects.store) :
  let call := Objects.bernstein_vazirani_circuit
                s use_ancilla use_paired_qubits in
  Objects.result_of (call st1)
  = Some (bernstein_vazirani_circuit s use_ancilla use_paired_qubits) /\
  Objects.result_of (call st1) = Objects.result_of (call st2) /\
  (forall r c, nth_error st1 r = Some c ->
               nth_error (snd (call st1)) r = Some c) /\
  (forall r, fst (call st1) = Objects.Returned r ->
             nth_error st1 r = None) /\
  (forall r r',
      fst (call st1) = Objects.Returned r ->
      fst (call (snd (call st1))) = Objects.Returned r' ->
      r <> r' /\
      exists c,
        nth_error (snd (call (snd (call st1)))) r = Some c /\
        nth_error (snd (call (snd (call st1)))) r' = Some c /\
        bernstein_vazirani_circuit s use_ancilla use_paired_qubits
        = inr c).
Proof.
  cbv zeta. destruct s as [|ch s].
  - destruct (call_empty use_ancilla use_paired_qubits st1) as [c1 H1].
    destruct (call_empty use_ancilla use_paired_qubits st2) as [c2 H2].
    rewrite H1, H2, bernstein_vazirani_circuit_empty. cbn [fst snd].
    repeat split; try discriminate.
    intros r c Hr. now apply nth_error_frame.
  - assert (Hs : String ch s <> "") by discriminate.
    rewrite !(call_described _ _ _ _ Hs),
      (bernstein_vazirani_circuit_described _ _ _ Hs).
    cbn [fst snd Objects.result_of]. rewrite !nth_error_last.
    split; [reflexivity|]. split; [reflexivity|]. split.
    { intros r c Hr. now apply nth_error_frame. }
    split.
    { intros r Hr. injection Hr as <-. apply nth_error_None. lia. }
    intros r r' Hr Hr'. injection Hr as <-. injection Hr' as <-.
    rewrite length_app. cbn [List.length]. split; [lia|].
    eexists. split; [|split; [|reflexivity]].
    + apply nth_error_frame, nth_error_last.
    + replace (List.length st1 + 1)
        with (List.length (st1 ++ [described_circuit (String ch s)
                                     use_ancilla use_paired_qubits]))
        by (rewrite length_app; reflexivity).
      apply nth_error_last.
Qed.

(** C9. Totality on valid inputs: on a non-empty binary secret the
    builder returns a circuit, whatever the flags; no call into the
    circuit interface raises. *)
Theorem build_total_on_valid (s : string)
  (use_ancilla use_paired_qubits : bool) :
  valid_secret s ->
  exists c,
    bernstein_vazirani_circuit s use_ancilla use_paired_qubits = inr c.
Proof.
  intros [Hs _]. exists (described_circuit s use_ancilla use_paired_qubits).
  now apply bernstein_vazirani_circuit_described.
Qed.

Lemma build_total_on_valid_witness :
  valid_secret "10110101" /\
  exists c, bernstein_vazirani_circuit "10110101" false true = inr c.
Proof.
  assert (H : valid_secret "10110101")
    by (split; [discriminate|reflexivity]).
  split; [exact H|].
  exact (build_total_on_valid "10110101" false true H).
Defined.

(** Replacing the characters other than '1' by '0' changes neither the
    length of the secret nor the circuit described for it. *)
Lemma length_zero_fill s : String.length (zero_fill s) = String.length s.
Proof. induction s; cbn; congruence. Qed.

Lemma zero_fill_nonempty s : s <> "" -> zero_fill s <> "".
Proof. destruct s; [congruence|discriminate]. Qed.

Lemma described_circuit_zero_fill s a p :
  described_circuit (zero_fill s) a p = described_circuit s a p.
Proof.
  unfold described_circuit, oracle_ops.
  now rewrite length_zero_fill, one_positions_zero_fill.
Qed.

Lemma is_binary_zero_fill s : is_binary (zero_fill s) = true.
Proof.
  unfold is_binary. induction s as [|ch s IH]; [reflexivity|].
  cbn. rewrite IH. now destruct (Ascii.eqb ch "1").
Qed.

(** C10, as stated, fails on the empty secret: the Hadamard over the
    empty range raises and no circuit is returned. *)
Lemma empty_secret_raises :
  bernstein_vazirani_circuit "" true false = inl EmptyArguments /\
  bernstein_vazirani_circuit "" false true = inl EmptyArguments /\
  bernstein_vazirani_circuit "" false false = inl EmptyArguments /\
  ~ (forall s a p, exists c, bernstein_vazirani_circuit s a p = inr c).
Proof.
  repeat split.
  intros H. destruct (H "" true false) as [c Hc]. discriminate Hc.
Qed.

(** C10, amended. Every non-empty secret is accepted, whatever its
    characters: the builder returns a circuit; the oracle segment holds a
    gate exactly for the positions whose character is '1', so every other
    character, '0' or not, contributes nothing; and the circuit is the
    one returned for the secret with every character other than '1'
    replaced by '0', which is a valid secret. *)
Theorem nonbinary_secret_accepted (s : string)
  (use_ancilla use_paired_qubits : bool) :
  s <> "" ->
  exists c,
    bernstein_vazirani_circuit s use_ancilla use_paired_qubits = inr c /\
    bernstein_vazirani_circuit (zero_fill s) use_ancilla use_paired_qubits
    = inr c /\
    valid_secret (zero_fill s) /\
    let n := String.length s in
    data c
    = init_ops use_ancilla n
      ++ [Barrier (range (num_qubits c))]
      ++ map (oracle_gate n use_ancilla use_paired_qubits) (one_positions s)
      ++ [Barrier (range (num_qubits c))]
      ++ basis_change_ops n ++ measure_ops n /\
    (forall i, In i (one_positions s)
               <-> i < n /\ secret_bit s i = Some "1"%char).
Proof.
  intros Hs. returns_described s use_ancilla use_paired_qubits Hs.
  split.
  - rewrite bernstein_vazirani_circuit_described
      by now apply zero_fill_nonempty.
    now rewrite described_circuit_zero_fill.
  - split; [split; [now apply zero_fill_nonempty
                   |apply is_binary_zero_fill]|].
    cbv zeta. split; [reflexivity|].
    intros i. apply in_one_positions.
Qed.

Lemma nonbinary_secret_accepted_witness :
  "1a0" <> "" /\
  exists c,
    bernstein_vazirani_circuit "1a0" false true = inr c /\
    bernstein_vazirani_circuit "100" false true = inr c /\
    cx_pairs (data c) = [(2, 5)].
Proof.
  assert (H : "1a0" <> "") by discriminate.
  split; [exact H|].
  destruct (nonbinary_secret_accepted "1a0" false true H)
    as (c & Hc & Hz & _).
  exists c. split; [exact Hc|]. split; [exact Hz|].
  pose proof Hc as Hc'. vm_compute in Hc'. injection Hc' as <-.
  reflexivity.
Defined.

(** ** Further properties of the builder *)

(** A returned circuit comes from a non-empty secret and is the described
    one. *)
Lemma build_inr_inv s a p c :
  bernstein_vazirani_circuit s a p = inr c ->
  s <> "" /\ c = described_circuit s a p.
Proof.
  destruct s as [|ch s].
  - rewrite bernstein_vazirani_circuit_empty. discriminate.
  - rewrite bernstein_vazirani_circuit_described by discriminate.
    intros H. injection H as <-. split; [discriminate|reflexivity].
Qed.

Lemma build_zero_fill s a p :
  bernstein_vazirani_circuit s a p
  = bernstein_vazirani_circuit (zero_fill s) a p.
Proof.
  destruct s as [|ch s]; [reflexivity|].
  rewrite !bernstein_vazirani_circuit_described by discriminate.
  now rewrite described_circuit_zero_fill.
Qed.

Lemma x_lines_described_plain s :
  x_lines (data (described_circuit s false false)) = one_positions s.
Proof.
  unfold described_circuit, init_ops, basis_change_ops. cbn [data].
  rewrite !x_lines_app, x_lines_oracle_ops, !x_lines_map_HGate,
    x_lines_measure_ops.
  cbn. now rewrite app_nil_r.
Qed.

Lemma filter_all {A} (f : A -> bool) l :
  (forall a, In a l -> f a = true) -> filter f l = l.
Proof.
  induction l as [|a l IH]; intros Hall; cbn; [reflexivity|].
  rewrite (Hall a) by now left.
  f_equal. apply IH. intros b Hb. apply Hall. now right.
Qed.

(** The positions of the '1' characters and the length determine the
    secret up to its characters other than '1'. *)
Lemma zero_fill_of_positions : forall s1 s2,
  String.length s1 = String.length s2 ->
  one_positions s1 = one_positions s2 ->
  zero_fill s1 = zero_fill s2.
Proof.
  induction s1 as [|c1 t1 IH]; intros [|c2 t2] Hlen Hpos;
    try discriminate; [reflexivity|].
  cbn [String.length] in Hlen. injection Hlen as Hlen.
  rewrite !one_positions_String, <- Hlen in Hpos.
  assert (Hlow : forall t, String.length t = String.length t1 ->
            filter (fun i => i <? String.length t1) (one_positions t)
            = one_positions t).
  { intros t Ht. apply filter_all. intros i Hi.
    apply in_one_positions in Hi. apply Nat.ltb_lt. lia. }
  assert (Htop : forall ch : ascii,
            filter (fun i => i <? String.length t1)
                   (if Ascii.eqb ch "1" then [String.length t1] else [])
            = []).
  { intros ch. destruct (Ascii.eqb ch "1"); [|reflexivity].
    cbn [filter]. now rewrite Nat.ltb_irrefl. }
  pose proof (f_equal (filter (fun i => i <? String.length t1)) Hpos)
    as Hfilt.
  rewrite !filter_app, !Htop, !app_nil_r in Hfilt.
  rewrite (Hlow t1 eq_refl), (Hlow t2 (eq_sym Hlen)) in Hfilt.
  rewrite Hfilt in Hpos. apply app_inv_head in Hpos.
  cbn [zero_fill]. rewrite (IH t2 Hlen Hfilt). f_equal.
  destruct (Ascii.eqb c1 "1"), (Ascii.eqb c2 "1");
    try reflexivity; discriminate.
Qed.

Lemma positions_of_described s1 s2 a p :
  described_circuit s1 a p = described_circuit s2 a p ->
  String.length s1 = String.length s2 /\
  one_positions s1 = one_positions s2.
Proof.
  intros H. split; [exact (f_equal num_clbits H)|].
  destruct a; [|destruct p].
  - pose proof (f_equal (fun c => map fst (cx_pairs (data c))) H) as Hc.
    cbv beta in Hc.
    rewrite !cx_pairs_described, !cx_pairs_oracle_ops, !map_map in Hc.
    cbn in Hc. now rewrite !map_id in Hc.
  - pose proof (f_equal (fun c => map fst (cx_pairs (data c))) H) as Hc.
    cbv beta in Hc.
    rewrite !cx_pairs_described, !cx_pairs_oracle_ops, !map_map in Hc.
    cbn in Hc. now rewrite !map_id in Hc.
  - pose proof (f_equal (fun c => x_lines (data c)) H) as Hc.
    cbv beta in Hc. now rewrite !x_lines_described_plain in Hc.
Qed.

Lemma build_eq_zero_fill s1 s2 a p :
  bernstein_vazirani_circuit s1 a p = bernstein_vazirani_circuit s2 a p
  <-> zero_fill s1 = zero_fill s2.
Proof.
  split.
  - destruct s1 as [|c1 t1], s2 as [|c2 t2]; [reflexivity| | |].
    + rewrite bernstein_vazirani_circuit_empty,
        bernstein_vazirani_circuit_described by discriminate.
      discriminate.
    + rewrite bernstein_vazirani_circuit_empty,
        bernstein_vazirani_circuit_described by discriminate.
      discriminate.
    + rewrite !bernstein_vazirani_circuit_described by discriminate.
      intros H.
      assert (Hd : described_circuit (String c1 t1) a p
                   = described_circuit (String c2 t2) a p) by congruence.
      apply positions_of_described in Hd. destruct Hd as [Hlen Hpos].
      now apply zero_fill_of_positions.
  - intros H.
    rewrite (build_zero_fill s1), (build_zero_fill s2), H. reflexivity.
Qed.

Lemma zero_fill_binary s : is_binary s = true -> zero_fill s = s.
Proof.
  unfold is_binary. induction s as [|ch s IH]; [reflexivity|].
  cbn. intros H. apply andb_true_iff in H. destruct H as [Hch Hs].
  rewrite (IH Hs). f_equal.
  destruct (Ascii.eqb ch "1") eqn:E1.
  - apply Ascii.eqb_eq in E1. now subst.
  - rewrite orb_false_r in Hch. apply Ascii.eqb_eq in Hch. now subst.
Qed.

(** X1. The builder fails exactly on the empty secret, and then with the
    error of a gate broadcast over no line; on every other string it
    returns a circuit, in every mode. *)
Theorem build_fails_exactly_on_empty (s : string)
  (use_ancilla use_paired_qubits : bool) :
  ((exists c,
      bernstein_vazirani_circuit s use_ancilla use_paired_qubits = inr c)
   <-> s <> "") /\
  (forall e,
      bernstein_vazirani_circuit s use_ancilla use_paired_qubits = inl e
      <-> s = "" /\ e = EmptyArguments).
Proof.
  destruct s as [|ch s].
  - rewrite bernstein_vazirani_circuit_empty. split.
    + split; [intros [c Hc]; discriminate|congruence].
    + intros e. split; [intros H; split; congruence|].
      intros [_ ->]. reflexivity.
  - rewrite bernstein_vazirani_circuit_described by discriminate. split.
    + split; [discriminate|]. intros _. eexists. reflexivity.
    + intros e. split; [discriminate|]. intros [H _]. discriminate.
Qed.

(** X2. Every circuit the builder returns is well formed: each operation
    names only declared lines and classical bits, every barrier spans
    declared lines only, and the two lines of each controlled flip
    differ. *)
Theorem build_well_formed (s : string)
  (use_ancilla use_paired_qubits : bool) (c : QuantumCircuit) :
  bernstein_vazirani_circuit s use_ancilla use_paired_qubits = inr c ->
  well_formed c = true.
Proof.
  intros H. apply build_inr_inv in H. destruct H as [Hs ->].
  apply string_length_pos in Hs.
  unfold well_formed, described_circuit. cbn [num_qubits num_clbits data].
  set (n := String.length s) in *.
  pose proof (lines_of_mode_ge use_ancilla use_paired_qubits n) as Hge.
  assert (Hnq : lines_of_mode use_ancilla use_paired_qubits n
                = if use_ancilla then n + 1
                  else if use_paired_qubits then 2 * n else n)
    by reflexivity.
  set (nq := lines_of_mode use_ancilla use_paired_qubits n) in *.
  assert (Hbar : op_in_range nq n (Barrier (range nq)) = true).
  { cbn. apply forallb_forall. intros q Hq. apply in_seq in Hq.
    apply Nat.ltb_lt. lia. }
  assert (Hh : forall op, In op (map HGate (range n)) ->
                          op_in_range nq n op = true).
  { intros op Hop. apply in_map_iff in Hop. destruct Hop as (q & <- & Hq).
    apply in_seq in Hq. cbn. apply Nat.ltb_lt. lia. }
  apply forallb_forall. intros op Hin.
  repeat (apply in_app_or in Hin; destruct Hin as [Hin|Hin]).
  - unfold init_ops in Hin. destruct use_ancilla; [|now apply Hh].
    destruct Hin as [<-|Hin].
    + cbn. apply Nat.ltb_lt. lia.
    + apply in_map_iff in Hin. destruct Hin as (q & <- & Hq).
      apply in_seq in Hq. cbn. apply Nat.ltb_lt. lia.
  - destruct Hin as [<-|[]]. exact Hbar.
  - unfold oracle_ops in Hin. apply in_map_iff in Hin.
    destruct Hin as (i & <- & Hi). apply in_one_positions in Hi.
    fold n in Hi. destruct Hi as [Hi _]. unfold oracle_gate.
    destruct use_ancilla; [|destruct use_paired_qubits]; cbn [op_in_range];
      rewrite ?andb_true_iff, ?negb_true_iff, ?Nat.ltb_lt, ?Nat.eqb_neq;
      lia.
  - destruct Hin as [<-|[]]. exact Hbar.
  - now apply Hh.
  - unfold measure_ops in Hin. apply in_map_iff in Hin.
    destruct Hin as (i & <- & Hi). apply in_seq in Hi. cbn [op_in_range].
    rewrite andb_true_iff, !Nat.ltb_lt. lia.
Qed.

Lemma build_well_formed_witness :
  bernstein_vazirani_circuit "1a0" false true
  = inr (described_circuit "1a0" false true) /\
  well_formed (described_circuit "1a0" false true) = true.
Proof.
  assert (H : bernstein_vazirani_circuit "1a0" false true
              = inr (described_circuit "1a0" false true)) by reflexivity.
  split; [exact H|].
  exact (build_well_formed "1a0" false true _ H).
Defined.

(** X3. Two secrets give the same result in a mode exactly when they
    agree after every character other than '1' is replaced by '0': the
    length and the places of the '1' characters are all the builder
    reads. *)
Theorem same_circuit_iff_same_ones (s1 s2 : string)
  (use_ancilla use_paired_qubits : bool) :
  bernstein_vazirani_circuit s1 use_ancilla use_paired_qubits
  = bernstein_vazirani_circuit s2 use_ancilla use_paired_qubits
  <-> zero_fill s1 = zero_fill s2.
Proof. apply build_eq_zero_fill. Qed.

(** X4. The secret can be read back from the circuit: two different
    binary secrets never give the same circuit, in any mode. *)
Theorem distinct_secrets_distinct_circuits (s1 s2 : string)
  (use_ancilla use_paired_qubits : bool) :
  is_binary s1 = true -> is_binary s2 = true -> s1 <> s2 ->
  bernstein_vazirani_circuit s1 use_ancilla use_paired_qubits
  <> bernstein_vazirani_circuit s2 use_ancilla use_paired_qubits.
Proof.
  intros H1 H2 Hne Heq. apply build_eq_zero_fill in Heq.
  rewrite !zero_fill_binary in Heq by assumption. contradiction.
Qed.

Lemma distinct_secrets_distinct_circuits_witness :
  is_binary "101" = true /\ is_binary "011" = true /\ "101" <> "011" /\
  bernstein_vazirani_circuit "101" false false
  <> bernstein_vazirani_circuit "011" false false.
Proof.
  assert (Hne : "101" <> "011") by discriminate.
  repeat split; [exact Hne|].
  exact (distinct_secrets_distinct_circuits "101" "011" false false
           eq_refl eq_refl Hne).
Defined.

(** X5. On a non-empty secret the flags matter exactly up to the
    precedence of the ancilla flag: two flag pairs give the same circuit
    if and only if they agree on the ancilla flag and, when it is unset,
    on the paired flag. *)
Theorem flags_distinguish_modes (s : string) (a p a' p' : bool) :
  s <> "" ->
  (bernstein_vazirani_circuit s a p = bernstein_vazirani_circuit s a' p'
   <-> a = a' /\ (a = true \/ p = p')).
Proof.
  intros Hs. rewrite !bernstein_vazirani_circuit_described by exact Hs.
  destruct s as [|ch s]; [congruence|].
  split.
  - intros H.
    assert (Hd : described_circuit (String ch s) a p
                 = described_circuit (String ch s) a' p') by congruence.
    pose proof (f_equal num_qubits Hd) as Hq.
    pose proof (f_equal (fun c => hd (Barrier []) (data c)) Hd) as Hhd.
    destruct a, p, a', p'; cbn in Hq, Hhd;
      first [discriminate Hhd | lia | tauto].
  - intros [<- [->|<-]]; [|reflexivity].
    destruct p, p'; reflexivity.
Qed.

Lemma flags_distinguish_modes_witness :
  "1" <> "" /\
  (bernstein_vazirani_circuit "1" true false
   = bernstein_vazirani_circuit "1" false true
   <-> true = false /\ (true = true \/ false = true)).
Proof.
  assert (H : "1" <> "") by discriminate.
  split; [exact H|].
  exact (flags_distinguish_modes "1" true false false true H).
Defined.

(** X6. Size of the returned circuit: three operations per character of
    the secret (two Hadamards and a measurement), one oracle gate per '1'
    character, the two barriers, and in ancilla mode the flip and the
    Hadamard of the ancilla line. *)
Theorem operation_count (s : string)
  (use_ancilla use_paired_qubits : bool) (c : QuantumCircuit) :
  bernstein_vazirani_circuit s use_ancilla use_paired_qubits = inr c ->
  List.length (data c)
  = 3 * String.length s + popcount s + 2 + (if use_ancilla then 2 else 0).
Proof.
  intros H. apply build_inr_inv in H. destruct H as [_ ->].
  unfold described_circuit, init_ops, oracle_ops, basis_change_ops,
    measure_ops, range.
  cbn [data].
  destruct use_ancilla; cbn [List.length];
    rewrite !length_app, !length_map, !length_seq, length_one_positions;
    cbn [List.length]; rewrite ?length_map, ?length_seq; lia.
Qed.

Lemma operation_count_witness :
  bernstein_vazirani_circuit "10110101" true false
  = inr (described_circuit "10110101" true false) /\
  List.length (data (described_circuit "10110101" true false)) = 33.
Proof.
  assert (H : bernstein_vazirani_circuit "10110101" true false
              = inr (described_circuit "10110101" true false))
    by reflexivity.
  split; [exact H|].
  exact (operation_count "10110101" true false _ H).
Defined.

(** X7. Where the oracle writes, by mode.  Controlled flips occur only
    when the ancilla or the paired flag is set; each is controlled by an
    input line, below [n], and targets a declared line at or above [n],
    which no measurement reads.  In plain mode the oracle instead flips
    input lines themselves: every unconditional flip sits on a line
    below [n], and that line is measured into the classical bit of the
    same index. *)
Theorem oracle_writes_by_mode (s : string)
  (use_ancilla use_paired_qubits : bool) (c : QuantumCircuit) :
  bernstein_vazirani_circuit s use_ancilla use_paired_qubits = inr c ->
  (forall ctl tgt,
      In (ctl, tgt) (cx_pairs (data c)) ->
      use_ancilla || use_paired_qubits = true /\
      ctl < String.length s /\
      String.length s <= tgt /\
      tgt < num_qubits c /\
      ~ In tgt (map fst (measurements (data c)))) /\
  (use_ancilla = false -> use_paired_qubits = false ->
   forall q,
     In q (x_lines (data c)) ->
     q < String.length s /\ In (q, q) (measurements (data c))).
Proof.
  intros H. apply build_inr_inv in H. destruct H as [_ ->]. split.
  - intros ctl tgt Hin.
    rewrite cx_pairs_described, cx_pairs_oracle_ops in Hin.
    rewrite measurements_described, map_map. cbn [fst num_qubits].
    rewrite map_id. unfold range. rewrite in_seq.
    unfold described_circuit. cbn [num_qubits]. unfold lines_of_mode.
    destruct use_ancilla; [|destruct use_paired_qubits];
      [| |destruct Hin];
      apply in_map_iff in Hin; destruct Hin as (i & Heq & Hi);
      apply in_one_positions in Hi; destruct Hi as [Hi _];
      inversion Heq; subst; cbn [orb]; repeat split; lia.
  - intros -> -> q Hq. rewrite x_lines_described_plain in Hq.
    apply in_one_positions in Hq. destruct Hq as [Hq _].
    split; [exact Hq|].
    rewrite measurements_described. apply in_map_iff.
    exists q. split; [reflexivity|]. apply in_seq. lia.
Qed.

Lemma oracle_writes_by_mode_witness :
  bernstein_vazirani_circuit "110" false false
  = inr (described_circuit "110" false false) /\
  In 1 (x_lines (data (described_circuit "110" false false))) /\
  In (1, 1) (measurements (data (described_circuit "110" false false))).
Proof.
  assert (H : bernstein_vazirani_circuit "110" false false
              = inr (described_circuit "110" false false)) by reflexivity.
  assert (Hin : In 1 (x_lines (data (described_circuit "110" false false))))
    by (left; reflexivity).
  split; [exact H|]. split; [exact Hin|].
  exact (proj2 (proj2 (oracle_writes_by_mode "110" false false _ H)
                  eq_refl eq_refl 1 Hin)).
Defined.

(** X8. In every mode the oracle holds one gate per '1' character of the
    secret: controlled flips when the ancilla or the paired flag is set,
    unconditional flips on input lines otherwise. *)
Theorem oracle_gate_count (s : string)
  (use_ancilla use_paired_qubits : bool) (c : QuantumCircuit) :
  bernstein_vazirani_circuit s use_ancilla use_paired_qubits = inr c ->
  (if use_ancilla || use_paired_qubits
   then List.length (cx_pairs (data c))
   else List.length (x_lines (data c)))
  = popcount s.
Proof.
  intros H. apply build_inr_inv in H. destruct H as [_ ->].
  destruct use_ancilla; [|destruct use_paired_qubits]; cbn [orb].
  - rewrite cx_pairs_described, cx_pairs_oracle_ops, length_map.
    apply length_one_positions.
  - rewrite cx_pairs_described, cx_pairs_oracle_ops, length_map.
    apply length_one_positions.
  - rewrite x_lines_described_plain. apply length_one_positions.
Qed.

Lemma oracle_gate_count_witness :
  bernstein_vazirani_circuit "1x1" false false
  = inr (described_circuit "1x1" false false) /\
  List.length (x_lines (data (described_circuit "1x1" false false))) = 2.
Proof.
  assert (H : bernstein_vazirani_circuit "1x1" false false
              = inr (described_circuit "1x1" false false)) by reflexivity.
  split; [exact H|].
  exact (oracle_gate_count "1x1" false false _ H).
Defined.
